(** * Speaker identification: [process_conversation] of [modules/speaker_id.py]

    A shallow embedding of the conversation pipeline.  Python exceptions are
    modelled with [option] ([None] = an exception was raised), the Pinecone
    index is threaded explicitly as state, and the calls made to the index
    and to the database are recorded in an event trace so that ordering
    properties can be stated. *)

From Stdlib Require Import String Ascii List ZArith QArith Bool Lia.
Import ListNotations.
Open Scope string_scope.

(** ** Error monad: [None] is a raised Python exception. *)

Definition bind {A B} (m : option A) (f : A -> option B) : option B :=
  match m with Some a => f a | None => None end.

Notation "'let*' x ':=' m 'in' k" := (bind m (fun x => k))
  (at level 200, x name, m at level 100, right associativity).

Notation "'let*' ' p ':=' m 'in' k" := (bind m (fun x => match x with p => k end))
  (at level 200, p pattern, m at level 100, right associativity).

(** ** Data model *)

(** Word-level timing data is an opaque pass-through. *)
Definition words := list string.

(** A voice embedding vector. *)
Definition embedding := list Q.

(** The vector index: the list of upserted (vector, speaker, audio source). *)
Definition index := list (embedding * string * string).

(** An utterance dict as returned by the diarization provider.  Each field
    is optional: [None] means the key is absent from the dict. *)
Record utterance := mkUtt {
  u_words : option words;
  u_start : option Z;
  u_end : option Z;
  u_speaker : option string;
  u_text : option string;
  u_confidence : option Q
}.

(** Python values stored in the result dicts. *)
Inductive pyval :=
| PInt (z : Z)
| PStr (s : string)
| PFloat (q : Q)
| PWords (w : words)
| PNone.

(** A Python dict with string keys, in insertion order. *)
Definition pydict := list (string * pyval).

Fixpoint lookup (k : string) (d : pydict) : option pyval :=
  match d with
  | [] => None
  | (k', v) :: d' => if String.eqb k k' then Some v else lookup k d'
  end.

Definition keys (d : pydict) : list string := map fst d.

(** [d[k] = v] on a dict: overwrite the key in place, or append it. *)
Fixpoint setitem (k : string) (v : pyval) (d : pydict) : pydict :=
  match d with
  | [] => [(k, v)]
  | (k', v') :: d' =>
      if String.eqb k k' then (k', v) :: d' else (k', v') :: setitem k v d'
  end.

(** Result of [test_voice_segment]: (speaker_name, confidence, embedding_id,
    embedding). *)
Definition tv_result : Type :=
  (option string * Q * option string * option embedding)%type.

(** Audio segments are identified by their span [full_audio[start:end]]. *)
Definition segment : Type := (Z * Z)%type.

(** Events of the pipeline, in the order they happen. *)
Inductive event :=
| EvTest (i : nat)          (** [test_voice_segment] for utterance [i]: index query *)
| EvEnroll (i : nat)        (** [auto_update_embedding] for utterance [i]: index write *)
| EvAddUtterance (i : nat)  (** [add_utterance] for utterance [i] *)
| EvConsolidate.            (** the [identify_unknown_speakers_by_combining] pass *)

(** The collaborators of [process_conversation], defined in other modules of
    the repository or in libraries.  A function returning [None] raises. *)
Record collab := mkCollab {
  convert_to_wav : string -> option string;
  from_wav : string -> option Z;                      (** [len(full_audio)] in ms *)
  transcribe : string -> option (option (list utterance));
      (** the ['utterances'] entry of the transcript, [None] when absent *)
  add_conversation : pydict -> option string;
  test_voice_segment : index -> segment -> string -> nat -> Q -> option tv_result;
  add_speaker : string -> option Z;
  auto_update_embedding : index -> embedding -> string -> string -> Q -> Q -> option index;
  add_utterance : pydict -> option unit;
  format_time : Z -> string;
  basename : string -> string;
  now_id : string;        (** [f"convo_{datetime.now().strftime(...)}"] *)
  now_iso : string;       (** [datetime.now().isoformat()] *)
  S3_BASE_PATH : string;
  S3_UTTERANCES_PATH : string;
  new_uuid : nat -> string;
  (** Re-embedding of a concatenation of segments followed by the match
      decision (used by the consolidation pass). *)
  match_combined : index -> list segment -> Q -> option (string * Q * embedding)
}.

(** ** Helpers for Python formatting and truthiness *)

(** Decimal digits of a natural number ([str(n)]). *)
Fixpoint dec_aux (fuel n : nat) (acc : string) : string :=
  match fuel with
  | O => acc
  | S f =>
      let acc' := String (ascii_of_nat (48 + n mod 10)) acc in
      if Nat.ltb n 10 then acc' else dec_aux f (n / 10) acc'
  end.

Definition dec (n : nat) : string := dec_aux (S n) n "".

(** [f"{i:03d}"]: zero-padded to at least three digits. *)
Definition fmt03 (n : nat) : string :=
  let s := dec n in
  match String.length s with
  | 1%nat => "00" ++ s
  | 2%nat => "0" ++ s
  | _ => s
  end.

(** [not x] for a value that is a string or [None]. *)
Definition truthy_str (o : option string) : bool :=
  match o with
  | Some s => negb (String.eqb s "")
  | None => false
  end.

Definition opt_str (o : option string) : pyval :=
  match o with Some s => PStr s | None => PNone end.

(** [utterance.get("confidence", 0.0)] *)
Definition get_confidence (u : utterance) : Q :=
  match u_confidence u with Some c => c | None => 0 end.

Section Pipeline.

Variable C : collab.

(** [f"{S3_BASE_PATH}/{conversation_id}/{S3_UTTERANCES_PATH}/utterance_{i:03d}.wav"] *)
Definition utterance_path (conversation_id : string) (i : nat) : string :=
  S3_BASE_PATH C ++ "/" ++ conversation_id ++ "/" ++ S3_UTTERANCES_PATH C
    ++ "/utterance_" ++ fmt03 i ++ ".wav".

(** The dict [utterance_data] appended to [utterance_metadata] (lines 64-76). *)
Definition utterance_data (i : nat) (start_ms end_ms : Z) (text : string)
    (confidence : Q) (speaker_name : string) (embedding_id : option string)
    (w : words) (db_conversation_id : string) : pydict :=
  [("id", PInt (Z.of_nat i));
   ("start_ms", PInt start_ms);
   ("end_ms", PInt end_ms);
   ("start_time", PStr (format_time C start_ms));
   ("end_time", PStr (format_time C end_ms));
   ("text", PStr text);
   ("confidence", PFloat confidence);
   ("speaker", PStr speaker_name);
   ("embedding_id", opt_str embedding_id);
   ("words", PWords w);
   ("conversation_id", PStr db_conversation_id)].

(** Local state of the loop over utterances: the shared index, the trace of
    calls, the list [utterance_metadata] and the local variable [s3_path]
    ([None] while it is unbound). *)
Record lstate := mkL {
  ls_index : index;
  ls_trace : list event;
  ls_meta : list pydict;
  ls_s3 : option string
}.

(** Speaker name and confidence after the fallback of lines 56-58. *)
Definition resolve_speaker (u : utterance) (sp : option string) (conf : Q)
    : option (string * Q) :=
  if truthy_str sp then
    match sp with Some s => Some (s, conf) | None => None end
  else
    let* tag := u_speaker u in            (* utterance['speaker'] *)
    Some ("Speaker_" ++ tag, get_confidence u).

(** One iteration of the [for i, utterance in enumerate(utterances)] loop
    (lines 35-109). *)
Definition step (conversation_id db_conversation_id : string)
    (match_threshold auto_update_threshold : Q)
    (i : nat) (u : utterance) (st : lstate) : option lstate :=
  match u_words u with
  | None => Some st                                       (* continue *)
  | Some w =>
    let* start_ms := u_start u in
    let* end_ms := u_end u in
    let duration_ms := (end_ms - start_ms)%Z in
    if Z.ltb duration_ms 700 then Some st                 (* continue *)
    else
    let tr := (ls_trace st ++ [EvTest i])%list in
    let* '(sp, conf, embedding_id, emb) :=
      test_voice_segment C (ls_index st) (start_ms, end_ms) conversation_id i
        match_threshold in
    let* '(speaker_name, confidence) := resolve_speaker u sp conf in
    let* speaker_id := add_speaker C speaker_name in
    let* text := u_text u in
    let meta := (ls_meta st ++
      [utterance_data i start_ms end_ms text confidence speaker_name
         embedding_id w db_conversation_id])%list in
    let* '(idx, tr) :=
      match emb with
      | Some e =>
          if Qlt_le_dec auto_update_threshold confidence then
            let* idx := auto_update_embedding C (ls_index st) e speaker_name
                          (utterance_path conversation_id i) confidence
                          auto_update_threshold in
            Some (idx, (tr ++ [EvEnroll i])%list)
          else Some (ls_index st, tr)
      | None => Some (ls_index st, tr)
      end in
    let s3_path := utterance_path conversation_id i in
    let* _ := add_utterance C
      [("utterance_id", PStr ("utterance_" ++ new_uuid C i));
       ("start_time", PStr (format_time C start_ms));
       ("end_time", PStr (format_time C end_ms));
       ("start_ms", PInt start_ms);
       ("end_ms", PInt end_ms);
       ("text", PStr text);
       ("confidence", PFloat confidence);
       ("embedding_id", opt_str embedding_id);
       ("audio_file", PStr s3_path);
       ("speaker_id", PInt speaker_id);
       ("speaker", PStr speaker_name);
       ("conversation_id", PStr db_conversation_id);
       ("words", PWords w)] in
    Some (mkL idx (tr ++ [EvAddUtterance i])%list meta (Some s3_path))
  end.

(** The whole loop, with [enumerate] starting at [i]. *)
Fixpoint loop (conversation_id db_conversation_id : string)
    (match_threshold auto_update_threshold : Q)
    (i : nat) (us : list utterance) (st : lstate) : option lstate :=
  match us with
  | [] => Some st
  | u :: us' =>
      let* st' := step conversation_id db_conversation_id match_threshold
                    auto_update_threshold i u st in
      loop conversation_id db_conversation_id match_threshold
        auto_update_threshold (S i) us' st'
  end.

(** ** The consolidation pass

    [identify_unknown_speakers_by_combining] lives in another module of the
    repository.  Modelled from the spec (section 4.3): utterances whose
    speaker is a synthesized fallback name ([Speaker_<tag>]) are grouped by
    that name; each group's audio spans are combined and re-matched; on a
    match every member's ["speaker"] and ["confidence"] are overwritten, and
    the combined embedding is enrolled (best-effort) when the new confidence
    exceeds [auto_update_threshold].  No other key of the dicts changes. *)

Definition fallback_tag (d : pydict) : option string :=
  match lookup "speaker" d with
  | Some (PStr s) => if String.prefix "Speaker_" s then Some s else None
  | _ => None
  end.

Definition opt_str_eqb (a b : option string) : bool :=
  match a, b with
  | Some x, Some y => String.eqb x y
  | None, None => true
  | _, _ => false
  end.

(** The distinct fallback names, in order of first appearance. *)
Fixpoint fallback_tags (ms : list pydict) (seen : list string) : list string :=
  match ms with
  | [] => []
  | d :: ms' =>
      match fallback_tag d with
      | Some t =>
          if existsb (String.eqb t) seen then fallback_tags ms' seen
          else t :: fallback_tags ms' (t :: seen)
      | None => fallback_tags ms' seen
      end
  end.

Definition span (d : pydict) : list segment :=
  match lookup "start_ms" d, lookup "end_ms" d with
  | Some (PInt s), Some (PInt e) => [(s, e)]
  | _, _ => []
  end.

Definition group_segments (t : string) (ms : list pydict) : list segment :=
  flat_map (fun d => if opt_str_eqb (fallback_tag d) (Some t) then span d else [])
    ms.

Definition relabel (t name : string) (conf : Q) (ms : list pydict) : list pydict :=
  map (fun d =>
         if opt_str_eqb (fallback_tag d) (Some t)
         then setitem "confidence" (PFloat conf) (setitem "speaker" (PStr name) d)
         else d) ms.

Fixpoint consolidate_groups (conversation_id : string)
    (match_threshold auto_update_threshold : Q)
    (tags : list string) (idx : index) (ms : list pydict) : index * list pydict :=
  match tags with
  | [] => (idx, ms)
  | t :: ts =>
      match match_combined C idx (group_segments t ms) match_threshold with
      | Some (name, conf, emb) =>
          let ms' := relabel t name conf ms in
          let idx' :=
            if Qlt_le_dec auto_update_threshold conf then
              match auto_update_embedding C idx emb name
                      (conversation_id ++ "/" ++ t) conf auto_update_threshold with
              | Some i => i
              | None => idx
              end
            else idx in
          consolidate_groups conversation_id match_threshold
            auto_update_threshold ts idx' ms'
      | None =>
          consolidate_groups conversation_id match_threshold
            auto_update_threshold ts idx ms
      end
  end.

(** Modelled from the spec: [identify_unknown_speakers_by_combining]
    (section 4.3 of the spec). *)
Definition identify_unknown_speakers_by_combining (ms : list pydict)
    (conversation_id : string) (match_threshold auto_update_threshold : Q)
    (idx : index) : index * list pydict :=
  consolidate_groups conversation_id match_threshold auto_update_threshold
    (fallback_tags ms []) idx ms.

(** ** [process_conversation] *)

(** The dict returned on success (lines 122-128). *)
Record result := mkResult {
  r_conversation_id : string;
  r_original_file : string;
  r_s3_path : string;
  r_utterances : list pydict;
  r_timestamp : string
}.

(** The body of the [try] block (lines 21-128): the result dict together
    with the final index and trace, or [None] when an exception is raised. *)
Definition try_block (file_path conversation_id : string)
    (display_name : option string) (match_threshold auto_update_threshold : Q)
    (full_audio : Z) (utterances : list utterance) (idx : index)
    : option (result * index * list event) :=
  let* db_conversation_id := add_conversation C
    [("conversation_id", PStr conversation_id);
     ("original_audio", PStr (basename C file_path));
     ("duration_seconds", PFloat (inject_Z full_audio / 1000));
     ("display_name", opt_str display_name)] in
  let* st := loop conversation_id db_conversation_id match_threshold
               auto_update_threshold 0 utterances (mkL idx [] [] None) in
  let '(idx', meta) :=
    identify_unknown_speakers_by_combining (ls_meta st) conversation_id
      match_threshold auto_update_threshold (ls_index st) in
  let tr := (ls_trace st ++ [EvConsolidate])%list in
  let* s3_path := ls_s3 st in          (* UnboundLocalError when unbound *)
  Some (mkResult conversation_id (basename C file_path) s3_path meta (now_iso C),
        idx', tr).

(** How a call ends: it returns a value ([None] on the [except] path) or an
    exception propagates out of it. *)
Inductive outcome :=
| Returned (r : option (result * index * list event))
| Raised.

Fixpoint remove_file (p : string) (fs : list string) : list string :=
  match fs with
  | [] => []
  | q :: fs' => if String.eqb p q then remove_file p fs' else q :: remove_file p fs'
  end.

Definition file_exists (p : string) (fs : list string) : bool :=
  existsb (String.eqb p) fs.

(** [if not conversation_id: conversation_id = f"convo_..."] (lines 6-7). *)
Definition conversation_id_or_new (conversation_id : option string) : string :=
  match conversation_id with
  | Some c => if truthy_str (Some c) then c else now_id C
  | None => now_id C
  end.

(** [utterances = transcript_data.get('utterances', [])] (line 19). *)
Definition utterances_of (ut : option (list utterance)) : list utterance :=
  match ut with Some l => l | None => [] end.

(** [process_conversation] on the file system [fs] (the list of existing
    paths) and the index [idx].  Returns the outcome and the final file
    system.  Index writes made before an exception caught by the [except]
    clause are not tracked. *)
Definition process_conversation (file_path : string)
    (conversation_id display_name : option string)
    (match_threshold auto_update_threshold : Q)
    (fs : list string) (idx : index) : outcome * list string :=
  let conversation_id := conversation_id_or_new conversation_id in
  match convert_to_wav C file_path with
  | None => (Raised, fs)
  | Some wav_file =>
    let fs := if file_exists wav_file fs then fs else wav_file :: fs in
    match from_wav C wav_file with
    | None => (Raised, fs)
    | Some full_audio =>
      match transcribe C wav_file with
      | None => (Raised, fs)
      | Some ut =>
        let utterances := utterances_of ut in
        let r := try_block file_path conversation_id display_name
                   match_threshold auto_update_threshold full_audio utterances idx in
        (* finally: *)
        let fs' := if negb (String.eqb wav_file file_path) && file_exists wav_file fs
                   then remove_file wav_file fs else fs in
        (Returned r, fs')
      end
    end
  end.

End Pipeline.

(** ** A concrete environment, used to run the pipeline on examples *)

(** Collaborators that succeed, except [transcribe], which is given. The
    file ["talk.mp3"] is converted to ["talk.wav"]; every other file is
    already a WAV file.  [tv] plays [test_voice_segment]. *)
Definition demo_collab (trans : option (option (list utterance)))
    (tv : index -> segment -> string -> nat -> Q -> option tv_result) : collab :=
  {| convert_to_wav := fun p => if String.eqb p "talk.mp3" then Some "talk.wav" else Some p;
     from_wav := fun _ => Some 10000%Z;
     transcribe := fun _ => trans;
     add_conversation := fun _ => Some "db-1";
     test_voice_segment := tv;
     add_speaker := fun _ => Some 1%Z;
     auto_update_embedding := fun idx e name src _ _ => Some ((e, name, src) :: idx);
     add_utterance := fun _ => Some tt;
     format_time := fun z => dec (Z.to_nat z);
     basename := fun p => p;
     now_id := "convo_20261015_120000";
     now_iso := "2026-10-15T12:00:00";
     S3_BASE_PATH := "conversations";
     S3_UTTERANCES_PATH := "utterances";
     new_uuid := fun i => dec i;
     match_combined := fun _ _ _ => None |}.

(** A matcher that finds nobody but still returns the embedding it
    computed, with similarity [sim]. *)
Definition tv_unmatched (sim : Q) : index -> segment -> string -> nat -> Q -> option tv_result :=
  fun _ _ _ i _ => Some (None, sim, Some ("emb_" ++ dec i), Some [1 # 1]).

(** A matcher that recognises ["Alice"] with similarity [sim]. *)
Definition tv_alice (sim : Q) : index -> segment -> string -> nat -> Q -> option tv_result :=
  fun _ _ _ i _ => Some (Some "Alice", sim, Some ("emb_" ++ dec i), Some [1 # 1]).

Definition utt (s e : Z) (tag : string) (conf : option Q) : utterance :=
  mkUtt (Some ["hi"]) (Some s) (Some e) (Some tag) (Some "hello") conf.

(** The index of an event of the per-utterance loop. *)
Definition eidx (e : event) : nat :=
  match e with
  | EvTest i | EvEnroll i | EvAddUtterance i => i
  | EvConsolidate => 0
  end.

(** The keys of every dict built by lines 64-76. *)
Definition utterance_keys : list string :=
  ["id"; "start_ms"; "end_ms"; "start_time"; "end_time"; "text"; "confidence";
   "speaker"; "embedding_id"; "words"; "conversation_id"].

(** A short utterance of the diarization provider: present [words], and a
    duration below 700 ms. *)
Definition is_short (u : utterance) : Prop :=
  exists w s e, u_words u = Some w /\ u_start u = Some s /\ u_end u = Some e /\
                (e - s < 700)%Z.

(** Sanity checks on small inputs. *)
Example fmt03_7 : fmt03 7 = "007". Proof. reflexivity. Qed.
Example fmt03_42 : fmt03 42 = "042". Proof. reflexivity. Qed.
Example fmt03_1234 : fmt03 1234 = "1234". Proof. reflexivity. Qed.

Example run_two :
  match process_conversation
          (demo_collab (Some (Some [utt 0 650 "A" None; utt 1000 1900 "A" (Some (9 # 10))]))
             (tv_alice (95 # 100)))
          "talk.mp3" None None (6 # 10) (9 # 10) ["talk.mp3"] [] with
  | (Returned (Some (r, _, tr)), fs) =>
      tr = [EvTest 1; EvEnroll 1; EvAddUtterance 1; EvConsolidate] /\
      fs = ["talk.mp3"] /\ r_s3_path r = "conversations/convo_20261015_120000/utterances/utterance_001.wav"
  | _ => False
  end.
Proof. vm_compute. repeat split; reflexivity. Qed.

(** ** Properties of one iteration *)

(** The enrollment event emitted by lines 80-91. *)
Definition enroll_ev (i : nat) (emb : option embedding) (c athr : Q) : list event :=
  match emb with
  | Some _ => if Qlt_le_dec athr c then [EvEnroll i] else []
  | None => []
  end.

Section StepFacts.

Variable C : collab.
Variables (cid db : string) (mthr athr : Q).

(** An iteration either skips the utterance, leaving the state unchanged,
    or runs it through matching, enrollment and storage. *)
Lemma step_inv (i : nat) (u : utterance) (st st' : lstate) :
  step C cid db mthr athr i u st = Some st' ->
  (st' = st /\ (u_words u = None \/ is_short u)) \/
  (exists w s e sp conf eid emb name c text,
     u_words u = Some w /\ u_start u = Some s /\ u_end u = Some e /\
     (700 <= e - s)%Z /\
     test_voice_segment C (ls_index st) (s, e) cid i mthr = Some (sp, conf, eid, emb) /\
     resolve_speaker u sp conf = Some (name, c) /\
     u_text u = Some text /\
     ls_trace st' = (ls_trace st ++ EvTest i :: enroll_ev i emb c athr ++ [EvAddUtterance i])%list /\
     ls_meta st' = (ls_meta st ++ [utterance_data C i s e text c name eid w db])%list /\
     ls_s3 st' = Some (utterance_path C cid i)).
Proof.
  unfold step, bind.
  destruct (u_words u) as [w|] eqn:Hw; [| intros H; inversion H; subst; auto].
  destruct (u_start u) as [s|] eqn:Hs; [| discriminate].
  destruct (u_end u) as [e|] eqn:He; [| discriminate].
  destruct (Z.ltb (e - s) 700) eqn:Hlt.
  { intros H; inversion H; subst; left; split; [reflexivity|].
    right; exists w, s, e; repeat split; auto; apply Z.ltb_lt; exact Hlt. }
  destruct (test_voice_segment C (ls_index st) (s, e) cid i mthr)
    as [[[[sp conf] eid] emb]|] eqn:Ht; [| discriminate].
  destruct (resolve_speaker u sp conf) as [[name c]|] eqn:Hr; [| discriminate].
  destruct (add_speaker C name) as [sid|] eqn:Ha; [| discriminate].
  destruct (u_text u) as [text|] eqn:Htx; [| discriminate].
  intros H; right.
  exists w, s, e, sp, conf, eid, emb, name, c, text.
  apply Z.ltb_ge in Hlt.
  destruct emb as [em|].
  - destruct (Qlt_le_dec athr c) as [Hq|Hq].
    + destruct (auto_update_embedding C _ _ _ _ _ _) as [idx|]; [| discriminate].
      destruct (add_utterance C _); [| discriminate].
      inversion H; subst; cbn. unfold enroll_ev.
      destruct (Qlt_le_dec athr c); [| exfalso; apply (Qlt_not_le _ _ Hq); assumption].
      repeat split; auto; rewrite <- !app_assoc; reflexivity.
    + destruct (add_utterance C _); [| discriminate].
      inversion H; subst; cbn. unfold enroll_ev.
      destruct (Qlt_le_dec athr c); [exfalso; apply (Qlt_not_le _ _ q); assumption |].
      repeat split; auto; rewrite <- !app_assoc; reflexivity.
  - destruct (add_utterance C _); [| discriminate].
    inversion H; subst; cbn.
    repeat split; auto; rewrite <- !app_assoc; reflexivity.
Qed.

End StepFacts.

(** ** Properties of the loop *)

Local Open Scope nat_scope.

(** Event indices never decrease along a trace. *)
Fixpoint mono (l : list event) : Prop :=
  match l with
  | [] => True
  | a :: l' => Forall (fun b => eidx a <= eidx b) l' /\ mono l'
  end.

Lemma mono_app (l1 l2 : list event) :
  mono l1 -> mono l2 ->
  Forall (fun a => Forall (fun b => eidx a <= eidx b) l2) l1 ->
  mono (l1 ++ l2).
Proof.
  induction l1 as [|a l1 IH]; cbn; auto.
  intros [Ha Hm] H2 Hx. inversion Hx; subst.
  split; [apply Forall_app; split; assumption | apply IH; assumption].
Qed.

Lemma mono_nth (l : list event) (p q : nat) (a b : event) :
  mono l -> p < q -> nth_error l p = Some a -> nth_error l q = Some b ->
  eidx a <= eidx b.
Proof.
  revert p q. induction l as [|x l IH]; intros p q Hm Hpq Hp Hq.
  - destruct p; discriminate.
  - destruct Hm as [Hx Hm]. destruct p as [|p]; destruct q as [|q]; try lia.
    + cbn in Hp, Hq. inversion Hp; subst.
      rewrite Forall_forall in Hx. apply Hx. eapply nth_error_In; eassumption.
    + cbn in Hp, Hq. apply (IH p q); auto; lia.
Qed.

(** The utterance is run through matching (not skipped by lines 35-46). *)
Definition runs (u : utterance) : Prop :=
  exists w s e, u_words u = Some w /\ u_start u = Some s /\ u_end u = Some e /\
                (700 <= e - s)%Z.

Lemma short_not_runs (u : utterance) : is_short u -> ~ runs u.
Proof.
  intros (w & s & e & Hw & Hs & He & Hlt) (w' & s' & e' & Hw' & Hs' & He' & Hge).
  rewrite Hs in Hs'; rewrite He in He'. inversion Hs'; inversion He'; subst. lia.
Qed.

Lemma enroll_ev_idx (i : nat) emb c athr :
  Forall (fun e => eidx e = i /\ e <> EvConsolidate) (enroll_ev i emb c athr).
Proof.
  unfold enroll_ev. destruct emb; [destruct (Qlt_le_dec athr c)|];
    repeat constructor; discriminate.
Qed.

(** Every event or record produced by one run of the loop belongs to an
    utterance that was not skipped, at its position in the list. *)
Definition from_runs (us : list utterance) (i0 n : nat) : Prop :=
  exists k u, n = i0 + k /\ nth_error us k = Some u /\ runs u.

Section LoopFacts.

Variable C : collab.
Variables (cid db : string) (mthr athr : Q).

Lemma loop_inv (us : list utterance) (i0 : nat) (st st' : lstate) :
  loop C cid db mthr athr i0 us st = Some st' ->
  exists ev ms,
    ls_trace st' = (ls_trace st ++ ev)%list /\
    mono ev /\
    Forall (fun e => i0 <= eidx e /\ e <> EvConsolidate /\ from_runs us i0 (eidx e)) ev /\
    ls_meta st' = (ls_meta st ++ ms)%list /\
    Forall (fun d => keys d = utterance_keys /\
              exists k, lookup "id" d = Some (PInt (Z.of_nat k)) /\ from_runs us i0 k) ms /\
    (ls_s3 st' = ls_s3 st \/ ls_s3 st' <> None).
Proof.
  revert i0 st. induction us as [|u us IH]; intros i0 st H.
  - cbn in H. inversion H; subst. exists [], []. rewrite !app_nil_r.
    repeat split; auto.
  - cbn in H. unfold bind in H at 1.
    destruct (step C cid db mthr athr i0 u st) as [st1|] eqn:Hs; [| discriminate].
    destruct (IH (S i0) st1 H) as (ev & ms & Ht & Hm & Hev & Hme & Hms & H3).
    assert (Hsh : forall n, from_runs us (S i0) n -> from_runs (u :: us) i0 n).
    { intros n (k & v & -> & Hk & Hr). exists (S k), v; repeat split; auto; lia. }
    apply step_inv in Hs.
    destruct Hs as [[-> _] | (w & s & e & sp & conf & eid & emb & name & c & text &
                               Hw & Hs & He & Hge & Htv & Hr & Htx & Ht1 & Hm1 & H31)].
    + exists ev, ms. repeat split; auto.
      * eapply Forall_impl; [| exact Hev]. intros x (? & ? & ?); repeat split; auto; lia.
      * eapply Forall_impl; [| exact Hms]. intros d (? & k & ? & ?); split; eauto.
    + assert (Hru : from_runs (u :: us) i0 i0).
      { exists 0, u; repeat split; [lia|]. exists w, s, e; auto. }
      remember (EvTest i0 :: enroll_ev i0 emb c athr ++ [EvAddUtterance i0])
        as blk eqn:Hblk.
      assert (Hb : Forall (fun e => eidx e = i0 /\ e <> EvConsolidate) blk).
      { rewrite Hblk. constructor; [split; [reflexivity | discriminate]|].
        apply Forall_app; split; [apply enroll_ev_idx|].
        repeat constructor; discriminate. }
      clear Hblk.
      exists (blk ++ ev)%list, (utterance_data C i0 s e text c name eid w db :: ms).
      repeat split.
      * rewrite Ht, Ht1, <- app_assoc. reflexivity.
      * apply mono_app; auto.
        -- clear -Hb. induction blk as [|a l IHl]; cbn; auto.
           inversion Hb; subst. split; auto.
           eapply Forall_impl; [| exact H2]. intros x [Hx _]. destruct H1. lia.
        -- eapply Forall_impl; [| exact Hb]. intros a [Ha _].
           eapply Forall_impl; [| exact Hev]. intros x [Hx _]. lia.
      * apply Forall_app; split.
        -- eapply Forall_impl; [| exact Hb]. intros x [Hx Hc].
           rewrite Hx. repeat split; auto.
        -- eapply Forall_impl; [| exact Hev]. intros x (? & ? & ?).
           repeat split; auto; lia.
      * rewrite Hme, Hm1, <- app_assoc. reflexivity.
      * constructor.
        -- split; [reflexivity|]. exists i0. split; [reflexivity | exact Hru].
        -- eapply Forall_impl; [| exact Hms]. intros d (? & k & ? & ?); split; eauto.
      * right. destruct H3 as [-> | H3]; [rewrite H31; discriminate | exact H3].
Qed.

End LoopFacts.

(** ** Dict updates and the consolidation pass *)

Lemma keys_setitem (k : string) (v : pyval) (d : pydict) :
  In k (keys d) -> keys (setitem k v d) = keys d.
Proof.
  induction d as [|[k' v'] d IH]; cbn; [tauto|].
  intros H. destruct (String.eqb k k') eqn:E; cbn; [reflexivity|].
  apply String.eqb_neq in E. f_equal. apply IH.
  destruct H as [H|H]; [cbn in H; congruence | exact H].
Qed.

Lemma lookup_setitem_other (k k' : string) (v : pyval) (d : pydict) :
  k <> k' -> lookup k (setitem k' v d) = lookup k d.
Proof.
  intros Hne. induction d as [|[k1 v1] d IH]; cbn.
  - destruct (String.eqb k k') eqn:E; [apply String.eqb_eq in E; congruence | reflexivity].
  - destruct (String.eqb k' k1) eqn:E1; cbn.
    + apply String.eqb_eq in E1; subst k1.
      destruct (String.eqb k k') eqn:E; [apply String.eqb_eq in E; congruence | reflexivity].
    + rewrite IH. reflexivity.
Qed.

Section ConsolidateFacts.

Variable C : collab.
Variables (cid : string) (mthr athr : Q).

(** Any property of a dict kept by overwriting its ["speaker"] and
    ["confidence"] holds for every dict returned by consolidation. *)
Lemma consolidate_forall (P : pydict -> Prop) :
  (forall d name conf, P d ->
     P (setitem "confidence" (PFloat conf) (setitem "speaker" (PStr name) d))) ->
  forall tags idx ms, Forall P ms ->
  Forall P (snd (consolidate_groups C cid mthr athr tags idx ms)).
Proof.
  intros HP tags. induction tags as [|t ts IH]; intros idx ms Hms; cbn; [exact Hms|].
  destruct (match_combined C idx (group_segments t ms) mthr) as [[[name conf] emb]|].
  - apply IH. unfold relabel. apply Forall_map.
    eapply Forall_impl; [| exact Hms]. intros d Hd.
    destruct (opt_str_eqb (fallback_tag d) (Some t)); auto.
  - apply IH; exact Hms.
Qed.

End ConsolidateFacts.

(** ** Inversion of a successful run *)

Lemma process_ok_inv (C : collab) (fp : string) (cid dn : option string)
    (mthr athr : Q) (fs : list string) (idx : index)
    (r : result) (idx' : index) (tr : list event) (fs' : list string) :
  process_conversation C fp cid dn mthr athr fs idx = (Returned (Some (r, idx', tr)), fs') ->
  exists wav ut cid' db st,
    convert_to_wav C fp = Some wav /\ transcribe C wav = Some ut /\
    loop C cid' db mthr athr 0 (utterances_of ut) (mkL idx [] [] None) = Some st /\
    tr = (ls_trace st ++ [EvConsolidate])%list /\
    identify_unknown_speakers_by_combining C (ls_meta st) cid' mthr athr
      (ls_index st) = (idx', r_utterances r) /\
    ls_s3 st = Some (r_s3_path r).
Proof.
  unfold process_conversation.
  destruct (convert_to_wav C fp) as [wav|] eqn:Hc; [| discriminate].
  destruct (from_wav C wav) as [full|]; [| discriminate].
  destruct (transcribe C wav) as [ut|] eqn:Ht; [| discriminate].
  unfold try_block, bind.
  match goal with |- context [add_conversation C ?info] =>
    destruct (add_conversation C info) as [db|] end; [| discriminate].
  match goal with |- context [loop C ?c db mthr athr 0 ?us ?s0] =>
    destruct (loop C c db mthr athr 0 us s0) as [st|] eqn:Hl end; [| discriminate].
  match goal with |- context [identify_unknown_speakers_by_combining C ?m ?c mthr athr ?i] =>
    destruct (identify_unknown_speakers_by_combining C m c mthr athr i) as [i2 meta] eqn:Hi end.
  destruct (ls_s3 st) as [p|] eqn:H3; [| discriminate].
  intros H; inversion H; subst; clear H.
  eexists _, _, _, _, st; repeat split; eauto.
Qed.

(** ** Claims *)

Lemma Z_of_nat_PInt_inj (k i : nat) :
  PInt (Z.of_nat k) = PInt (Z.of_nat i) -> k = i.
Proof. intros H; inversion H; lia. Qed.

Ltac inv_process H :=
  destruct (process_ok_inv _ _ _ _ _ _ _ _ _ _ _ _ H)
    as (wav' & ut & cid' & db & st & Hc' & Ht' & Hl & Htr & Hid & Hs3).

(** Claim C1: an utterance of duration [end_ms - start_ms] below 700 ms is
    skipped before matching: [test_voice_segment] is never called for it,
    and no dict of the returned utterance list carries its index. *)
Theorem short_utterance_never_matched (C : collab) (fp : string)
    (cid dn : option string) (mthr athr : Q) (fs : list string) (idx : index)
    (r : result) (idx' : index) (tr : list event) (fs' : list string)
    (wav : string) (us : list utterance) (i : nat) (u : utterance) :
  process_conversation C fp cid dn mthr athr fs idx = (Returned (Some (r, idx', tr)), fs') ->
  convert_to_wav C fp = Some wav -> transcribe C wav = Some (Some us) ->
  nth_error us i = Some u -> is_short u ->
  ~ In (EvTest i) tr /\
  Forall (fun d => lookup "id" d <> Some (PInt (Z.of_nat i))) (r_utterances r).
Proof.
  intros H Hc Ht Hi Hsh. inv_process H.
  rewrite Hc in Hc'; inversion Hc'; subst wav'.
  rewrite Ht in Ht'; inversion Ht'; subst ut. cbn [utterances_of] in Hl.
  destruct (loop_inv _ _ _ _ _ _ _ _ _ Hl) as (ev & ms & Hte & Hm & Hev & Hme & Hms & _).
  cbn in Hte, Hme. split.
  - rewrite Htr, Hte. intros Hin. apply in_app_or in Hin as [Hin|[Hin|[]]];
      [| discriminate].
    rewrite Forall_forall in Hev. destruct (Hev _ Hin) as (_ & _ & k & v & Hk & Hv & Hr).
    cbn in Hk; subst k. rewrite Hi in Hv; inversion Hv; subst v.
    exact (short_not_runs u Hsh Hr).
  - unfold identify_unknown_speakers_by_combining in Hid.
    replace (r_utterances r)
      with (snd (consolidate_groups C cid' mthr athr (fallback_tags (ls_meta st) [])
                   (ls_index st) (ls_meta st))) by (rewrite Hid; reflexivity).
    apply consolidate_forall.
    + intros d name conf Hd.
      rewrite !lookup_setitem_other by discriminate. exact Hd.
    + rewrite Hme. eapply Forall_impl; [| exact Hms].
      intros d (_ & k & Hk & k' & v & Hk' & Hv & Hr) Heq.
      rewrite Hk in Heq. inversion Heq as [Heq'].
      apply Nat2Z.inj in Heq'. cbn in Hk'; subst.
      rewrite Hi in Hv; inversion Hv; subst v.
      exact (short_not_runs u Hsh Hr).
Qed.

Definition demo_short :=
  demo_collab (Some (Some [utt 0 650 "A" None; utt 1000 1900 "A" (Some (9 # 10))]))
    (tv_alice (95 # 100)).

Lemma short_utterance_never_matched_witness :
  exists r idx' tr fs',
    process_conversation demo_short "talk.mp3" None None (6 # 10) (9 # 10)
      ["talk.mp3"] [] = (Returned (Some (r, idx', tr)), fs') /\
    is_short (utt 0 650 "A" None) /\
    ~ In (EvTest 0) tr /\
    Forall (fun d => lookup "id" d <> Some (PInt (Z.of_nat 0))) (r_utterances r).
Proof.
  destruct (process_conversation demo_short "talk.mp3" None None (6 # 10) (9 # 10)
              ["talk.mp3"] []) as [o fs'] eqn:E.
  pose proof E as E0. vm_compute in E0. injection E0 as <- <-.
  assert (Hs : is_short (utt 0 650 "A" None)).
  { exists ["hi"], 0%Z, 650%Z. repeat split; lia. }
  do 4 eexists. split; [exact E|]. split; [exact Hs|].
  eapply (short_utterance_never_matched demo_short "talk.mp3"); [exact E | | | | exact Hs];
    reflexivity.
Defined.

(** A run of one iteration on an utterance that is not skipped. *)
Lemma step_run (C : collab) cid db mthr athr i u st st' w s e sp conf eid emb :
  step C cid db mthr athr i u st = Some st' ->
  u_words u = Some w -> u_start u = Some s -> u_end u = Some e ->
  (700 <= e - s)%Z ->
  test_voice_segment C (ls_index st) (s, e) cid i mthr = Some (sp, conf, eid, emb) ->
  exists name c text,
    resolve_speaker u sp conf = Some (name, c) /\ u_text u = Some text /\
    ls_trace st' = (ls_trace st ++ EvTest i :: enroll_ev i emb c athr ++ [EvAddUtterance i])%list /\
    ls_meta st' = (ls_meta st ++ [utterance_data C i s e text c name eid w db])%list.
Proof.
  intros H Hw Hs He Hge Ht. apply step_inv in H.
  destruct H as [[_ [Hn | Hsh]] | (w' & s' & e' & sp' & conf' & eid' & emb' & name & c & text &
                                  Hw' & Hs' & He' & _ & Ht' & Hr & Htx & Htr & Hm & _)].
  - congruence.
  - exfalso. apply (short_not_runs u Hsh). exists w, s, e; auto.
  - rewrite Hs in Hs'; rewrite He in He'. inversion Hs'; inversion He'; subst s' e'.
    rewrite Ht in Ht'. inversion Ht'; subst. rewrite Hw in Hw'; inversion Hw'; subst.
    exists name, c, text. auto.
Qed.

Lemma in_enroll_block (i : nat) emb c athr :
  In (EvEnroll i) (EvTest i :: enroll_ev i emb c athr ++ [EvAddUtterance i]) <->
  (emb <> None /\ Qlt athr c).
Proof.
  unfold enroll_ev. destruct emb as [em|].
  - destruct (Qlt_le_dec athr c) as [Hq|Hq]; cbn.
    + split; [intros _; split; [discriminate | exact Hq] | intros _; right; left; reflexivity].
    + split.
      * intros [H|[H|[]]]; discriminate.
      * intros [_ Hq']. exfalso. apply (Qlt_not_le _ _ Hq' Hq).
  - cbn. split; [intros [H|[H|[]]]; discriminate | intros [Hn _]; congruence].
Qed.

(** Claim C2: for an utterance that reaches matching, with [confidence] the
    value stored for it, the iteration calls [auto_update_embedding] (the
    event [EvEnroll i]) exactly when the embedding is present and
    [confidence > auto_update_threshold]; in particular never when the two
    are equal. *)
Theorem auto_enroll_iff_strictly_above (C : collab) cid db mthr athr i u st st'
    w s e sp conf eid emb :
  step C cid db mthr athr i u st = Some st' ->
  u_words u = Some w -> u_start u = Some s -> u_end u = Some e ->
  (700 <= e - s)%Z ->
  test_voice_segment C (ls_index st) (s, e) cid i mthr = Some (sp, conf, eid, emb) ->
  exists confidence rec ev,
    ls_meta st' = (ls_meta st ++ [rec])%list /\
    lookup "confidence" rec = Some (PFloat confidence) /\
    ls_trace st' = (ls_trace st ++ ev)%list /\
    (In (EvEnroll i) ev <-> (emb <> None /\ Qlt athr confidence)) /\
    (Qeq confidence athr -> ~ In (EvEnroll i) ev).
Proof.
  intros H Hw Hs He Hge Ht.
  destruct (step_run C cid db mthr athr i u st st' w s e sp conf eid emb H Hw Hs He Hge Ht)
    as (name & c & text & Hr & Htx & Htr & Hm).
  exists c, (utterance_data C i s e text c name eid w db),
    (EvTest i :: enroll_ev i emb c athr ++ [EvAddUtterance i]).
  split; [exact Hm|]. split; [reflexivity|]. split; [exact Htr|].
  split; [apply in_enroll_block|].
  intros Heq Hin. apply in_enroll_block in Hin as [_ Hlt].
  rewrite Heq in Hlt. exact (Qlt_irrefl _ Hlt).
Qed.

Lemma auto_enroll_iff_strictly_above_witness :
  exists st',
    step (demo_collab None (tv_alice (9 # 10))) "c" "db" (6 # 10) (9 # 10) 0
      (utt 0 1000 "A" None) (mkL [] [] [] None) = Some st' /\
    exists confidence rec ev,
      ls_meta st' = ([] ++ [rec])%list /\
      lookup "confidence" rec = Some (PFloat confidence) /\
      ls_trace st' = ([] ++ ev)%list /\
      (In (EvEnroll 0) ev <-> (Some [1 # 1] <> None /\ Qlt (9 # 10) confidence)) /\
      (Qeq confidence (9 # 10) -> ~ In (EvEnroll 0) ev).
Proof.
  destruct (step (demo_collab None (tv_alice (9 # 10))) "c" "db" (6 # 10) (9 # 10) 0
              (utt 0 1000 "A" None) (mkL [] [] [] None)) as [st'|] eqn:E;
    [| vm_compute in E; discriminate].
  exists st'. split; [reflexivity|].
  eapply (auto_enroll_iff_strictly_above (demo_collab None (tv_alice (9 # 10)))
            "c" "db" (6 # 10) (9 # 10) 0 (utt 0 1000 "A" None) (mkL [] [] [] None) st'
            ["hi"] 0%Z 1000%Z (Some "Alice") (9 # 10) (Some "emb_0") (Some [1 # 1]));
    [exact E | reflexivity | reflexivity | reflexivity | lia | reflexivity].
Defined.

(** Claim C4: when matching yields no speaker ([speaker_name] is [None] or
    empty), the stored record carries the speaker ["Speaker_" ++ tag], with
    [tag] the provider's raw label, and the provider's confidence for the
    utterance ([0] when the provider gives none). *)
Theorem unmatched_uses_provider_label (C : collab) cid db mthr athr i u st st'
    w s e sp conf eid emb :
  step C cid db mthr athr i u st = Some st' ->
  u_words u = Some w -> u_start u = Some s -> u_end u = Some e ->
  (700 <= e - s)%Z ->
  test_voice_segment C (ls_index st) (s, e) cid i mthr = Some (sp, conf, eid, emb) ->
  truthy_str sp = false ->
  exists tag rec,
    u_speaker u = Some tag /\
    ls_meta st' = (ls_meta st ++ [rec])%list /\
    lookup "speaker" rec = Some (PStr ("Speaker_" ++ tag)) /\
    lookup "confidence" rec =
      Some (PFloat (match u_confidence u with Some c => c | None => 0 end)).
Proof.
  intros H Hw Hs He Hge Ht Hf.
  destruct (step_run C cid db mthr athr i u st st' w s e sp conf eid emb H Hw Hs He Hge Ht)
    as (name & c & text & Hr & Htx & Htr & Hm).
  unfold resolve_speaker in Hr. rewrite Hf in Hr. unfold bind in Hr.
  destruct (u_speaker u) as [tag|]; [| discriminate].
  inversion Hr; subst name c.
  exists tag, (utterance_data C i s e text (get_confidence u) ("Speaker_" ++ tag) eid w db).
  repeat split; auto.
Qed.

Lemma unmatched_uses_provider_label_witness :
  exists st',
    step (demo_collab None (tv_unmatched (4 # 10))) "c" "db" (6 # 10) (9 # 10) 0
      (utt 0 1000 "B" None) (mkL [] [] [] None) = Some st' /\
    exists tag rec,
      u_speaker (utt 0 1000 "B" None) = Some tag /\
      ls_meta st' = ([] ++ [rec])%list /\
      lookup "speaker" rec = Some (PStr ("Speaker_" ++ tag)) /\
      lookup "confidence" rec = Some (PFloat 0).
Proof.
  destruct (step (demo_collab None (tv_unmatched (4 # 10))) "c" "db" (6 # 10) (9 # 10) 0
              (utt 0 1000 "B" None) (mkL [] [] [] None)) as [st'|] eqn:E;
    [| vm_compute in E; discriminate].
  exists st'. split; [reflexivity|].
  exact (unmatched_uses_provider_label (demo_collab None (tv_unmatched (4 # 10)))
            "c" "db" (6 # 10) (9 # 10) 0 (utt 0 1000 "B" None) (mkL [] [] [] None) st'
            ["hi"] 0%Z 1000%Z None (4 # 10) (Some "emb_0") (Some [1 # 1])
            E eq_refl eq_refl eq_refl ltac:(lia) eq_refl eq_refl).
Defined.

(** Claim C5: in a completed run, every enrollment write for utterance [i]
    comes before the matching query of every later utterance [j], and the
    consolidation pass happens once, as the last event, after every
    per-utterance event. *)
Theorem utterances_in_order_then_consolidation (C : collab) (fp : string)
    (cid dn : option string) (mthr athr : Q) (fs : list string) (idx : index)
    (r : result) (idx' : index) (tr : list event) (fs' : list string) :
  process_conversation C fp cid dn mthr athr fs idx = (Returned (Some (r, idx', tr)), fs') ->
  (forall i j p q, i < j ->
     nth_error tr p = Some (EvEnroll i) -> nth_error tr q = Some (EvTest j) -> p < q) /\
  (exists tr0, tr = (tr0 ++ [EvConsolidate])%list /\ ~ In EvConsolidate tr0).
Proof.
  intros H. inv_process H.
  destruct (loop_inv _ _ _ _ _ _ _ _ _ Hl) as (ev & ms & Hte & Hm & Hev & _).
  cbn in Hte. rewrite Hte in Htr. subst tr.
  assert (Hin : forall p a, nth_error (ev ++ [EvConsolidate])%list p = Some a ->
                  a <> EvConsolidate -> nth_error ev p = Some a).
  { intros p a Hp Ha. destruct (Nat.lt_ge_cases p (length ev)) as [Hlt|Hge].
    - rewrite nth_error_app1 in Hp; assumption.
    - rewrite nth_error_app2 in Hp by assumption.
      destruct (p - length ev) as [|k]; cbn in Hp.
      + inversion Hp; congruence.
      + destruct k; discriminate. }
  split.
  - intros i j p q Hij Hp Hq.
    apply Hin in Hp; [| discriminate]. apply Hin in Hq; [| discriminate].
    destruct (Nat.lt_trichotomy p q) as [Hlt|[->|Hgt]]; [exact Hlt| |].
    + rewrite Hp in Hq; discriminate.
    + pose proof (mono_nth ev q p _ _ Hm Hgt Hq Hp) as Hle. cbn in Hle. lia.
  - exists ev. split; [reflexivity|].
    intros Hc. rewrite Forall_forall in Hev. destruct (Hev _ Hc) as (_ & Hn & _).
    exact (Hn eq_refl).
Qed.

Definition demo_order :=
  demo_collab (Some (Some [utt 0 1000 "A" None; utt 1000 2000 "B" None]))
    (tv_alice (95 # 100)).

Lemma demo_order_trace :
  match process_conversation demo_order "talk.mp3" None None (6 # 10) (9 # 10)
          ["talk.mp3"] [] with
  | (Returned (Some (_, _, tr)), _) =>
      tr = [EvTest 0; EvEnroll 0; EvAddUtterance 0; EvTest 1; EvEnroll 1;
            EvAddUtterance 1; EvConsolidate]
  | _ => False
  end.
Proof. vm_compute. reflexivity. Qed.

Lemma utterances_in_order_then_consolidation_witness :
  exists r idx' tr fs',
    process_conversation demo_order "talk.mp3" None None (6 # 10) (9 # 10)
      ["talk.mp3"] [] = (Returned (Some (r, idx', tr)), fs') /\
    (forall i j p q, i < j ->
       nth_error tr p = Some (EvEnroll i) -> nth_error tr q = Some (EvTest j) -> p < q) /\
    (exists tr0, tr = (tr0 ++ [EvConsolidate])%list /\ ~ In EvConsolidate tr0).
Proof.
  destruct (process_conversation demo_order "talk.mp3" None None (6 # 10) (9 # 10)
              ["talk.mp3"] []) as [o fs'] eqn:E.
  pose proof E as E0. vm_compute in E0. injection E0 as <- <-.
  do 4 eexists. split; [exact E|].
  exact (utterances_in_order_then_consolidation demo_order "talk.mp3" None None
           (6 # 10) (9 # 10) ["talk.mp3"] [] _ _ _ _ E).
Defined.

(** The enrollment call made by lines 80-91, with the index it returns. *)
Lemma step_enroll_call (C : collab) cid db mthr athr i u st st' w s e sp conf eid em
    name c :
  step C cid db mthr athr i u st = Some st' ->
  u_words u = Some w -> u_start u = Some s -> u_end u = Some e ->
  (700 <= e - s)%Z ->
  test_voice_segment C (ls_index st) (s, e) cid i mthr = Some (sp, conf, eid, Some em) ->
  resolve_speaker u sp conf = Some (name, c) ->
  Qlt athr c ->
  auto_update_embedding C (ls_index st) em name (utterance_path C cid i) c athr =
    Some (ls_index st').
Proof.
  intros H Hw Hs He Hge Ht Hr Hq.
  unfold step in H. rewrite Hw in H. unfold bind in H. rewrite Hs, He in H.
  rewrite (proj2 (Z.ltb_ge _ _) Hge) in H. rewrite Ht, Hr in H.
  destruct (add_speaker C name); [| discriminate].
  destruct (u_text u); [| discriminate].
  destruct (Qlt_le_dec athr c) as [_|Hq']; [| exfalso; exact (Qlt_not_le _ _ Hq Hq')].
  destruct (auto_update_embedding C (ls_index st) em name (utterance_path C cid i) c athr);
    [| discriminate].
  destruct (add_utterance C _); [| discriminate].
  inversion H; reflexivity.
Qed.

(** Claim C3, as stated, fails: an utterance left unmatched, carrying the
    fallback label ["Speaker_B"] and the provider's confidence [0.95], has its
    embedding enrolled in the index under ["Speaker_B"] when that confidence
    exceeds [auto_update_threshold = 0.9]. *)
Lemma unmatched_enrolled_counterexample :
  match process_conversation
          (demo_collab (Some (Some [utt 0 1000 "B" (Some (95 # 100))])) (tv_unmatched (4 # 10)))
          "talk.wav" None None (6 # 10) (9 # 10) ["talk.wav"] [] with
  | (Returned (Some (r, idx', tr)), _) =>
      In (EvEnroll 0) tr /\
      map (lookup "speaker") (r_utterances r) = [Some (PStr "Speaker_B")] /\
      map (fun x => snd (fst x)) idx' = ["Speaker_B"]
  | _ => False
  end.
Proof. vm_compute. split; [right; left; reflexivity | split; reflexivity]. Qed.

(** Claim C3 (amended): enrollment is not restricted to matched utterances.
    When matching yields no speaker but returns an embedding, and the
    provider's confidence exceeds [auto_update_threshold], the iteration
    enrolls that embedding under the fallback name ["Speaker_" ++ tag] with
    the provider's confidence. *)
Theorem unmatched_enrolled_under_fallback (C : collab) cid db mthr athr i u st st'
    w s e sp conf eid em :
  step C cid db mthr athr i u st = Some st' ->
  u_words u = Some w -> u_start u = Some s -> u_end u = Some e ->
  (700 <= e - s)%Z ->
  test_voice_segment C (ls_index st) (s, e) cid i mthr = Some (sp, conf, eid, Some em) ->
  truthy_str sp = false ->
  Qlt athr (get_confidence u) ->
  exists tag,
    u_speaker u = Some tag /\
    ls_trace st' = (ls_trace st ++ [EvTest i; EvEnroll i; EvAddUtterance i])%list /\
    auto_update_embedding C (ls_index st) em ("Speaker_" ++ tag) (utterance_path C cid i)
      (get_confidence u) athr = Some (ls_index st').
Proof.
  intros H Hw Hs He Hge Ht Hf Hq.
  destruct (step_run C cid db mthr athr i u st st' w s e sp conf eid (Some em) H Hw Hs He Hge Ht)
    as (name & c & text & Hr & Htx & Htr & Hm).
  pose proof Hr as Hr'.
  unfold resolve_speaker in Hr. rewrite Hf in Hr. unfold bind in Hr.
  destruct (u_speaker u) as [tag|] eqn:Hsp; [| discriminate].
  inversion Hr; subst name c.
  exists tag. split; [reflexivity|]. split.
  - rewrite Htr. unfold enroll_ev.
    destruct (Qlt_le_dec athr (get_confidence u)) as [_|Hq'];
      [reflexivity | exfalso; exact (Qlt_not_le _ _ Hq Hq')].
  - exact (step_enroll_call C cid db mthr athr i u st st' w s e sp conf eid em _ _
             H Hw Hs He Hge Ht Hr' Hq).
Qed.

Lemma unmatched_enrolled_under_fallback_witness :
  exists st',
    step (demo_collab None (tv_unmatched (4 # 10))) "c" "db" (6 # 10) (9 # 10) 0
      (utt 0 1000 "B" (Some (95 # 100))) (mkL [] [] [] None) = Some st' /\
    exists tag,
      u_speaker (utt 0 1000 "B" (Some (95 # 100))) = Some tag /\
      ls_trace st' = ([] ++ [EvTest 0; EvEnroll 0; EvAddUtterance 0])%list /\
      auto_update_embedding (demo_collab None (tv_unmatched (4 # 10))) [] [1 # 1]
        ("Speaker_" ++ tag)
        (utterance_path (demo_collab None (tv_unmatched (4 # 10))) "c" 0)
        (get_confidence (utt 0 1000 "B" (Some (95 # 100)))) (9 # 10) = Some (ls_index st').
Proof.
  destruct (step (demo_collab None (tv_unmatched (4 # 10))) "c" "db" (6 # 10) (9 # 10) 0
              (utt 0 1000 "B" (Some (95 # 100))) (mkL [] [] [] None)) as [st'|] eqn:E;
    [| vm_compute in E; discriminate].
  exists st'. split; [reflexivity|].
  apply (unmatched_enrolled_under_fallback (demo_collab None (tv_unmatched (4 # 10)))
           "c" "db" (6 # 10) (9 # 10) 0 (utt 0 1000 "B" (Some (95 # 100)))
           (mkL [] [] [] None) st' ["hi"] 0%Z 1000%Z None (4 # 10) (Some "emb_0") [1 # 1]);
    [exact E | reflexivity | reflexivity | reflexivity | lia | reflexivity | reflexivity |].
  vm_compute. reflexivity.
Defined.

(** ** Skipped utterances and raised exceptions *)

Lemma step_skip (C : collab) cid db mthr athr i u st :
  u_words u = None \/ is_short u -> step C cid db mthr athr i u st = Some st.
Proof.
  unfold step. intros [Hn | (w & s & e & Hw & Hs & He & Hlt)].
  - rewrite Hn. reflexivity.
  - rewrite Hw. unfold bind. rewrite Hs, He.
    rewrite (proj2 (Z.ltb_lt _ _) Hlt). reflexivity.
Qed.

Lemma loop_all_skipped (C : collab) cid db mthr athr us :
  Forall (fun u => u_words u = None \/ is_short u) us ->
  forall i st, loop C cid db mthr athr i us st = Some st.
Proof.
  induction 1 as [|u us Hu Hus IH]; intros i st; cbn; [reflexivity|].
  rewrite (step_skip C cid db mthr athr i u st Hu). cbn. apply IH.
Qed.

(** Claim C9: when no utterance survives the pre-filters (each lacks
    ["words"] or is shorter than 700 ms, or there are none), the variable
    [s3_path] is never bound, the [return] raises, and [process_conversation]
    returns [None]. *)
Theorem nothing_processed_returns_none (C : collab) (fp : string)
    (cid dn : option string) (mthr athr : Q) (fs : list string) (idx : index)
    (wav : string) (full : Z) (ut : option (list utterance)) :
  convert_to_wav C fp = Some wav -> from_wav C wav = Some full ->
  transcribe C wav = Some ut ->
  Forall (fun u => u_words u = None \/ is_short u) (utterances_of ut) ->
  fst (process_conversation C fp cid dn mthr athr fs idx) = Returned None.
Proof.
  intros Hc Hf Ht Hall. unfold process_conversation.
  rewrite Hc, Hf, Ht. cbn [fst]. f_equal.
  unfold try_block, bind.
  match goal with |- context [add_conversation C ?info] =>
    destruct (add_conversation C info) as [db|] end; [| reflexivity].
  rewrite (loop_all_skipped C _ db mthr athr _ Hall). cbn.
  reflexivity.
Qed.

Definition skipped_utts : list utterance :=
  [utt 0 650 "A" None; mkUtt None (Some 0%Z) (Some 5000%Z) (Some "B") (Some "x") None].

Definition demo_skipped := demo_collab (Some (Some skipped_utts)) (tv_alice (95 # 100)).

Lemma nothing_processed_returns_none_witness :
  convert_to_wav demo_skipped "talk.mp3" = Some "talk.wav" /\
  from_wav demo_skipped "talk.wav" = Some 10000%Z /\
  transcribe demo_skipped "talk.wav" = Some (Some skipped_utts) /\
  Forall (fun u => u_words u = None \/ is_short u) (utterances_of (Some skipped_utts)) /\
  fst (process_conversation demo_skipped "talk.mp3" None None (6 # 10) (9 # 10)
         ["talk.mp3"] []) = Returned None.
Proof.
  assert (Hall : Forall (fun u => u_words u = None \/ is_short u)
                   (utterances_of (Some skipped_utts))).
  { cbn. constructor; [right; exists ["hi"], 0%Z, 650%Z; repeat split; lia|].
    constructor; [left; reflexivity | constructor]. }
  split; [reflexivity|]. split; [reflexivity|]. split; [reflexivity|]. split; [exact Hall|].
  exact (nothing_processed_returns_none demo_skipped "talk.mp3" None None (6 # 10) (9 # 10)
           ["talk.mp3"] [] "talk.wav" 10000%Z (Some skipped_utts) eq_refl eq_refl eq_refl Hall).
Defined.

(** An utterance that has ["words"] but no ["start"] (a malformed utterance
    of the provider), followed by a well-formed one. *)
Definition no_start_utt : utterance :=
  mkUtt (Some ["hi"]) None (Some 1000%Z) (Some "A") (Some "hello") None.

Definition no_end_utt : utterance :=
  mkUtt (Some ["hi"]) (Some 0%Z) None (Some "A") (Some "hello") None.

(** Claim C6, as stated, fails: a malformed utterance raises [KeyError]
    inside the [try] block, and [process_conversation] returns [None]
    instead of the result object, although the next utterance is fine. *)
Lemma malformed_aborts_conversation_counterexample :
  fst (process_conversation
         (demo_collab (Some (Some [no_start_utt; utt 1000 2000 "A" None])) (tv_alice (95 # 100)))
         "talk.mp3" None None (6 # 10) (9 # 10) ["talk.mp3"] []) = Returned None.
Proof. vm_compute. reflexivity. Qed.

(** An utterance with ["words"] but without ["start"] or ["end"] makes the
    loop raise, whatever the utterances before it: either one of them
    raises first, or the loop reaches it and [int(utterance["start"])] or
    [int(utterance["end"])] raises. *)
Lemma loop_raises_at (C : collab) cid db mthr athr pre u us :
  u_words u <> None -> (u_start u = None \/ u_end u = None) ->
  forall i st, loop C cid db mthr athr i (pre ++ u :: us) st = None.
Proof.
  intros Hw Hse. induction pre as [|v pre IH]; intros i st.
  - cbn. unfold step. destruct (u_words u) as [w|]; [| congruence].
    unfold bind. destruct Hse as [Hs|He]; [rewrite Hs; reflexivity|].
    destruct (u_start u); [rewrite He|]; reflexivity.
  - cbn [app loop]. unfold bind at 1.
    destruct (step C cid db mthr athr i v st) as [st1|]; [apply IH | reflexivity].
Qed.

(** Claim C6 (amended): once the audio has been converted, loaded and
    transcribed, no exception escapes [process_conversation]: it returns
    normally, the value of the [try] block.  That value is [None] as soon as
    anything in the [try] block raises; for instance, whenever the provider's
    list contains an utterance with ["words"] but without ["start"] (or
    ["end"]), wherever it sits and whatever precedes it, the conversation
    returns [None] and no result list at all. *)
Theorem returns_after_transcription (C : collab) (fp : string)
    (cid dn : option string) (mthr athr : Q) (fs : list string) (idx : index)
    (wav : string) (full : Z) (ut : option (list utterance)) :
  convert_to_wav C fp = Some wav -> from_wav C wav = Some full ->
  transcribe C wav = Some ut ->
  fst (process_conversation C fp cid dn mthr athr fs idx) <> Raised /\
  fst (process_conversation C fp cid dn mthr athr fs idx) =
    Returned (try_block C fp (conversation_id_or_new C cid) dn mthr athr full
                (utterances_of ut) idx) /\
  (forall pre u us, utterances_of ut = (pre ++ u :: us)%list ->
     u_words u <> None -> (u_start u = None \/ u_end u = None) ->
     fst (process_conversation C fp cid dn mthr athr fs idx) = Returned None).
Proof.
  intros Hc Hf Ht.
  assert (Hfst : fst (process_conversation C fp cid dn mthr athr fs idx) =
    Returned (try_block C fp (conversation_id_or_new C cid) dn mthr athr full
                (utterances_of ut) idx)).
  { unfold process_conversation. rewrite Hc, Hf, Ht. reflexivity. }
  split; [rewrite Hfst; discriminate|].
  split; [exact Hfst|].
  intros pre u us Hus Hw Hse. rewrite Hfst. f_equal.
  unfold try_block, bind.
  match goal with |- context [add_conversation C ?info] =>
    destruct (add_conversation C info) as [db|] end; [| reflexivity].
  rewrite Hus, (loop_raises_at C _ db mthr athr pre u us Hw Hse). reflexivity.
Qed.

(** A processed utterance, then one without ["start"], then a good one. *)
Definition demo_malformed :=
  demo_collab (Some (Some [utt 0 1000 "A" None; no_start_utt; utt 1000 2000 "A" None]))
    (tv_alice (95 # 100)).

Lemma returns_after_transcription_witness :
  convert_to_wav demo_malformed "talk.mp3" = Some "talk.wav" /\
  from_wav demo_malformed "talk.wav" = Some 10000%Z /\
  u_words no_start_utt <> None /\
  fst (process_conversation demo_malformed "talk.mp3" None None (6 # 10) (9 # 10)
         ["talk.mp3"] []) = Returned None.
Proof.
  split; [reflexivity|]. split; [reflexivity|]. split; [discriminate|].
  destruct (returns_after_transcription demo_malformed "talk.mp3" None None (6 # 10) (9 # 10)
              ["talk.mp3"] [] "talk.wav" 10000%Z
              (Some [utt 0 1000 "A" None; no_start_utt; utt 1000 2000 "A" None])
              eq_refl eq_refl eq_refl)
    as (_ & _ & H).
  apply (H [utt 0 1000 "A" None] no_start_utt [utt 1000 2000 "A" None]);
    [reflexivity | discriminate | left; reflexivity].
Defined.

(** Claim C7, as stated, fails: an utterance with ["words"] but no ["end"]
    raises [KeyError] at [int(utterance["end"])]; the loop stops there, the
    next, well-formed utterance is never processed, and the conversation
    returns [None]. *)
Lemma malformed_not_skipped_counterexample :
  loop (demo_collab None (tv_alice (95 # 100))) "c" "db" (6 # 10) (9 # 10) 0
    [no_end_utt; utt 1000 2000 "A" None] (mkL [] [] [] None) = None /\
  fst (process_conversation
         (demo_collab (Some (Some [no_end_utt; utt 1000 2000 "A" None])) (tv_alice (95 # 100)))
         "talk.mp3" None None (6 # 10) (9 # 10) ["talk.mp3"] []) = Returned None.
Proof. split; vm_compute; reflexivity. Qed.

(** Claim C7 (amended): only an utterance without the ["words"] key is
    skipped with processing continuing at the next one; an utterance that
    has ["words"] but lacks ["start"] or ["end"] raises, which ends the loop
    (and the conversation returns [None]). *)
Theorem malformed_utterance_handling (C : collab) cid db mthr athr i us st
    (w : words) (s e : option Z) (sp tx : option string) (cf : option Q) :
  loop C cid db mthr athr i (mkUtt None s e sp tx cf :: us) st =
    loop C cid db mthr athr (S i) us st /\
  loop C cid db mthr athr i (mkUtt (Some w) None e sp tx cf :: us) st = None /\
  loop C cid db mthr athr i (mkUtt (Some w) s None sp tx cf :: us) st = None.
Proof.
  split; [reflexivity|]. split; [reflexivity|].
  cbn. unfold step, bind. cbn. destruct s; reflexivity.
Qed.

(** Claim C8, as stated, fails: the dicts of the returned utterance list
    carry no audio-clip reference; the clip path only goes to the
    database record ([add_utterance], key ["audio_file"]). *)
Lemma no_audio_reference_counterexample :
  match process_conversation demo_short "talk.mp3" None None (6 # 10) (9 # 10)
          ["talk.mp3"] [] with
  | (Returned (Some (r, _, _)), _) =>
      map keys (r_utterances r) = [utterance_keys] /\
      map (lookup "audio_file") (r_utterances r) = [None]
  | _ => False
  end.
Proof. vm_compute. split; reflexivity. Qed.

(** Claim C8 (amended): every dict of the returned utterance list has
    exactly the keys id, start_ms, end_ms, start_time, end_time, text,
    confidence, speaker, embedding_id, words and conversation_id, and so
    no audio-clip reference. *)
Theorem returned_record_keys (C : collab) (fp : string)
    (cid dn : option string) (mthr athr : Q) (fs : list string) (idx : index)
    (r : result) (idx' : index) (tr : list event) (fs' : list string) :
  process_conversation C fp cid dn mthr athr fs idx = (Returned (Some (r, idx', tr)), fs') ->
  Forall (fun d => keys d = utterance_keys) (r_utterances r).
Proof.
  intros H. inv_process H.
  destruct (loop_inv _ _ _ _ _ _ _ _ _ Hl) as (ev & ms & _ & _ & _ & Hme & Hms & _).
  cbn in Hme.
  unfold identify_unknown_speakers_by_combining in Hid.
  replace (r_utterances r)
    with (snd (consolidate_groups C cid' mthr athr (fallback_tags (ls_meta st) [])
                 (ls_index st) (ls_meta st))) by (rewrite Hid; reflexivity).
  apply consolidate_forall.
  - intros d name conf Hd.
    assert (Hs : keys (setitem "speaker" (PStr name) d) = keys d)
      by (apply keys_setitem; rewrite Hd; cbn; tauto).
    rewrite keys_setitem; rewrite Hs; [exact Hd|]. rewrite Hd; cbn; tauto.
  - rewrite Hme. eapply Forall_impl; [| exact Hms]. intros d [Hk _]. exact Hk.
Qed.

Lemma returned_record_keys_witness :
  exists r idx' tr fs',
    process_conversation demo_short "talk.mp3" None None (6 # 10) (9 # 10)
      ["talk.mp3"] [] = (Returned (Some (r, idx', tr)), fs') /\
    Forall (fun d => keys d = utterance_keys) (r_utterances r).
Proof.
  destruct (process_conversation demo_short "talk.mp3" None None (6 # 10) (9 # 10)
              ["talk.mp3"] []) as [o fs'] eqn:E.
  pose proof E as E0. vm_compute in E0. injection E0 as <- <-.
  do 4 eexists. split; [exact E|].
  exact (returned_record_keys demo_short "talk.mp3" None None (6 # 10) (9 # 10)
           ["talk.mp3"] [] _ _ _ _ E).
Defined.

(** ** Cleanup of the temporary WAV file *)

Lemma remove_file_not_in (p : string) (fs : list string) :
  file_exists p (remove_file p fs) = false.
Proof.
  induction fs as [|q fs IH]; cbn; [reflexivity|].
  destruct (String.eqb p q) eqn:E; [exact IH|]. cbn. rewrite E. exact IH.
Qed.

Lemma remove_file_keeps (p q : string) (fs : list string) :
  p <> q -> file_exists q fs = true -> file_exists q (remove_file p fs) = true.
Proof.
  intros Hne. induction fs as [|x fs IH]; cbn; [discriminate|].
  intros H. destruct (String.eqb p x) eqn:E.
  - apply String.eqb_eq in E; subst x.
    destruct (String.eqb q p) eqn:E'; [apply String.eqb_eq in E'; congruence|].
    apply IH. exact H.
  - cbn. destruct (String.eqb q x); [reflexivity|]. apply IH. exact H.
Qed.

(** When [process_conversation] returns (with the result or with [None]),
    a temporary WAV file it created is gone and the input file is kept. *)
Lemma temp_removed_on_return (C : collab) (fp : string)
    (cid dn : option string) (mthr athr : Q) (fs : list string) (idx : index)
    (r : option (result * index * list event)) (fs' : list string) (wav : string) :
  process_conversation C fp cid dn mthr athr fs idx = (Returned r, fs') ->
  convert_to_wav C fp = Some wav -> wav <> fp ->
  file_exists wav fs' = false /\ (file_exists fp fs = true -> file_exists fp fs' = true).
Proof.
  intros H Hc Hne. unfold process_conversation in H. rewrite Hc in H.
  destruct (from_wav C wav); [| discriminate].
  destruct (transcribe C wav); [| discriminate].
  inversion H; subst fs'; clear H.
  apply String.eqb_neq in Hne. rewrite Hne. cbn.
  set (fs1 := if file_exists wav fs then fs else wav :: fs).
  assert (Hw : file_exists wav fs1 = true).
  { unfold fs1. destruct (file_exists wav fs) eqn:E; [exact E|]. cbn.
    rewrite String.eqb_refl. reflexivity. }
  rewrite Hw. split; [apply remove_file_not_in|].
  intros Hfp. apply remove_file_keeps; [apply String.eqb_neq; exact Hne|].
  unfold fs1. destruct (file_exists wav fs); [exact Hfp|]. cbn.
  unfold file_exists in Hfp. rewrite Hfp, orb_true_r. reflexivity.
Qed.

(** Claim C10 (the code misses it): the [try ... finally] that deletes the
    temporary WAV file starts after [transcribe]; when transcription raises,
    the exception leaves [process_conversation] and the converted
    ["talk.wav"] is left on disk. *)
Theorem temp_wav_left_when_transcription_raises :
  process_conversation (demo_collab None (tv_alice (95 # 100))) "talk.mp3" None None
    (6 # 10) (9 # 10) ["talk.mp3"] [] = (Raised, ["talk.wav"; "talk.mp3"]) /\
  convert_to_wav (demo_collab None (tv_alice (95 # 100))) "talk.mp3" = Some "talk.wav".
Proof. split; vm_compute; reflexivity. Qed.

(** ** Further properties of the loop and of the result *)

(** The utterance passes the filters of lines 35-46. *)
Definition runs_b (u : utterance) : bool :=
  match u_words u, u_start u, u_end u with
  | Some _, Some s, Some e => Z.leb 700 (e - s)
  | _, _, _ => false
  end.

(** The utterances that pass the filters, with their [enumerate] index. *)
Fixpoint indexed_runs (i : nat) (us : list utterance) : list (nat * utterance) :=
  match us with
  | [] => []
  | u :: us' => if runs_b u then (i, u) :: indexed_runs (S i) us'
                else indexed_runs (S i) us'
  end.

(** The index of the last utterance that passes the filters. *)
Fixpoint last_run (i : nat) (us : list utterance) : option nat :=
  match us with
  | [] => None
  | u :: us' =>
      match last_run (S i) us' with
      | Some k => Some k
      | None => if runs_b u then Some i else None
      end
  end.

(** The indices of the [test_voice_segment] calls of a trace. *)
Definition tests_of (tr : list event) : list nat :=
  flat_map (fun e => match e with EvTest i => [i] | _ => [] end) tr.

(** The entries of a record copied from the provider's utterance (all but
    speaker, confidence and embedding_id). *)
Definition passthrough (d : pydict) : list (option pyval) :=
  map (fun k => lookup k d)
    ["id"; "start_ms"; "end_ms"; "start_time"; "end_time"; "text"; "words";
     "conversation_id"].

Definition expected_view (C : collab) (db : string) (p : nat * utterance)
    : list (option pyval) :=
  let '(k, u) := p in
  [Some (PInt (Z.of_nat k));
   option_map PInt (u_start u);
   option_map PInt (u_end u);
   option_map (fun z => PStr (format_time C z)) (u_start u);
   option_map (fun z => PStr (format_time C z)) (u_end u);
   option_map PStr (u_text u);
   option_map PWords (u_words u);
   Some (PStr db)].

Lemma runs_b_run (u : utterance) w s e :
  u_words u = Some w -> u_start u = Some s -> u_end u = Some e -> (700 <= e - s)%Z ->
  runs_b u = true.
Proof.
  intros Hw Hs He Hge. unfold runs_b. rewrite Hw, Hs, He. apply Z.leb_le. exact Hge.
Qed.

Lemma runs_b_skip (u : utterance) :
  u_words u = None \/ is_short u -> runs_b u = false.
Proof.
  unfold runs_b. intros [Hn | (w & s & e & Hw & Hs & He & Hlt)].
  - rewrite Hn. reflexivity.
  - rewrite Hw, Hs, He. apply Z.leb_gt. exact Hlt.
Qed.

Lemma tests_of_app (l1 l2 : list event) :
  tests_of (l1 ++ l2) = (tests_of l1 ++ tests_of l2)%list.
Proof. unfold tests_of. apply flat_map_app. Qed.

Lemma tests_of_enroll (i : nat) emb c athr : tests_of (enroll_ev i emb c athr) = [].
Proof. unfold enroll_ev. destruct emb; [destruct (Qlt_le_dec athr c)|]; reflexivity. Qed.

Section LoopSummary.

Variable C : collab.
Variables (cid db : string) (mthr athr : Q).

(** A completed loop: one record per utterance that passes the filters, in
    order, copying the provider's fields; one matching query per such
    utterance, in order; and [s3_path] is the path of the last of them. *)
Lemma loop_summary (us : list utterance) (i0 : nat) (st st' : lstate) :
  loop C cid db mthr athr i0 us st = Some st' ->
  (exists ms, ls_meta st' = (ls_meta st ++ ms)%list /\
              map passthrough ms = map (expected_view C db) (indexed_runs i0 us)) /\
  tests_of (ls_trace st') = (tests_of (ls_trace st) ++ map fst (indexed_runs i0 us))%list /\
  ls_s3 st' = match last_run i0 us with
              | Some k => Some (utterance_path C cid k)
              | None => ls_s3 st
              end.
Proof.
  revert i0 st. induction us as [|u us IH]; intros i0 st H.
  - cbn in H. inversion H; subst. cbn.
    split; [exists []; rewrite app_nil_r; auto | rewrite app_nil_r; auto].
  - cbn in H. unfold bind in H at 1.
    destruct (step C cid db mthr athr i0 u st) as [st1|] eqn:Hs; [| discriminate].
    destruct (IH (S i0) st1 H) as [(ms & Hme & Hv) [Ht H3]].
    apply step_inv in Hs.
    destruct Hs as [[-> Hsk] | (w & s & e & sp & conf & eid & emb & name & c & text &
                               Hw & Hs & He & Hge & Htv & Hr & Htx & Ht1 & Hm1 & H31)].
    + cbn. rewrite (runs_b_skip u Hsk). split; [exists ms; auto|]. split; [exact Ht|].
      rewrite H3. destruct (last_run (S i0) us); reflexivity.
    + cbn. rewrite (runs_b_run u w s e Hw Hs He Hge). split; [|split].
      * exists (utterance_data C i0 s e text c name eid w db :: ms). split.
        -- rewrite Hme, Hm1, <- app_assoc. reflexivity.
        -- cbn [map]. rewrite Hv. f_equal.
           cbn. rewrite Hs, He, Htx, Hw. reflexivity.
      * rewrite Ht, Ht1, !tests_of_app. cbn. rewrite tests_of_app, tests_of_enroll.
        cbn. rewrite <- app_assoc. reflexivity.
      * rewrite H3, H31. destruct (last_run (S i0) us); reflexivity.
Qed.

End LoopSummary.

Lemma passthrough_relabel (d : pydict) (name : string) (conf : Q) :
  passthrough (setitem "confidence" (PFloat conf) (setitem "speaker" (PStr name) d)) =
  passthrough d.
Proof. unfold passthrough. cbn [map]. rewrite !lookup_setitem_other by discriminate. reflexivity. Qed.

Lemma consolidate_passthrough (C : collab) cid mthr athr tags idx ms :
  map passthrough (snd (consolidate_groups C cid mthr athr tags idx ms)) =
  map passthrough ms.
Proof.
  revert idx ms. induction tags as [|t ts IH]; intros idx ms; cbn; [reflexivity|].
  destruct (match_combined C idx (group_segments t ms) mthr) as [[[name conf] emb]|].
  - rewrite IH. unfold relabel. rewrite map_map. apply map_ext. intros d.
    destruct (opt_str_eqb (fallback_tag d) (Some t)); [apply passthrough_relabel | reflexivity].
  - apply IH.
Qed.

(** Inversion of a successful run, with every value it depends on. *)
Lemma process_ok_full (C : collab) (fp : string) (cid dn : option string)
    (mthr athr : Q) (fs : list string) (idx : index)
    (r : result) (idx' : index) (tr : list event) (fs' : list string) :
  process_conversation C fp cid dn mthr athr fs idx = (Returned (Some (r, idx', tr)), fs') ->
  exists wav full ut db st,
    convert_to_wav C fp = Some wav /\ from_wav C wav = Some full /\
    transcribe C wav = Some ut /\
    add_conversation C
      [("conversation_id", PStr (conversation_id_or_new C cid));
       ("original_audio", PStr (basename C fp));
       ("duration_seconds", PFloat (inject_Z full / 1000));
       ("display_name", opt_str dn)] = Some db /\
    loop C (conversation_id_or_new C cid) db mthr athr 0 (utterances_of ut)
      (mkL idx [] [] None) = Some st /\
    tr = (ls_trace st ++ [EvConsolidate])%list /\
    identify_unknown_speakers_by_combining C (ls_meta st) (conversation_id_or_new C cid)
      mthr athr (ls_index st) = (idx', r_utterances r) /\
    ls_s3 st = Some (r_s3_path r) /\
    r_conversation_id r = conversation_id_or_new C cid /\
    r_original_file r = basename C fp /\
    r_timestamp r = now_iso C.
Proof.
  unfold process_conversation.
  destruct (convert_to_wav C fp) as [wav|] eqn:Hc; [| discriminate].
  destruct (from_wav C wav) as [full|] eqn:Hf; [| discriminate].
  destruct (transcribe C wav) as [ut|] eqn:Ht; [| discriminate].
  unfold try_block, bind.
  match goal with |- context [add_conversation C ?info] =>
    destruct (add_conversation C info) as [db|] eqn:Ha end; [| discriminate].
  match goal with |- context [loop C ?c db mthr athr 0 ?us ?s0] =>
    destruct (loop C c db mthr athr 0 us s0) as [st|] eqn:Hl end; [| discriminate].
  match goal with |- context [identify_unknown_speakers_by_combining C ?m ?c mthr athr ?i] =>
    destruct (identify_unknown_speakers_by_combining C m c mthr athr i) as [i2 meta] eqn:Hi end.
  destruct (ls_s3 st) as [p|] eqn:H3; [| discriminate].
  intros H; inversion H; subst; clear H.
  exists wav, full, ut, db, st. repeat split; auto.
Qed.

(** The result object of a completed run: its ["conversation_id"] is the
    caller's id when it is non-empty and the generated one otherwise, its
    ["original_file"] is the base name of the input, and its ["s3_path"] is
    the clip path of the last utterance that passed the filters (there is
    one, as [s3_path] is otherwise unbound). *)
Theorem result_fields (C : collab) (fp : string) (cid dn : option string)
    (mthr athr : Q) (fs : list string) (idx : index)
    (r : result) (idx' : index) (tr : list event) (fs' : list string) :
  process_conversation C fp cid dn mthr athr fs idx = (Returned (Some (r, idx', tr)), fs') ->
  r_conversation_id r = conversation_id_or_new C cid /\
  (forall c, cid = Some c -> c <> "" -> r_conversation_id r = c) /\
  r_original_file r = basename C fp /\
  r_timestamp r = now_iso C /\
  exists wav ut k,
    convert_to_wav C fp = Some wav /\ transcribe C wav = Some ut /\
    last_run 0 (utterances_of ut) = Some k /\
    r_s3_path r = utterance_path C (conversation_id_or_new C cid) k.
Proof.
  intros H.
  destruct (process_ok_full C fp cid dn mthr athr fs idx r idx' tr fs' H)
    as (wav & full & ut & db & st & Hc & Hf & Ht & Ha & Hl & Htr & Hid & H3 & Hcid & Hfile & Hts).
  split; [exact Hcid|]. split.
  { intros c -> Hne. rewrite Hcid. unfold conversation_id_or_new, truthy_str.
    apply String.eqb_neq in Hne. rewrite Hne. reflexivity. }
  split; [exact Hfile|]. split; [exact Hts|].
  destruct (loop_summary C _ db mthr athr _ 0 _ _ Hl) as [_ [_ Hs]].
  cbn in Hs. rewrite H3 in Hs.
  destruct (last_run 0 (utterances_of ut)) as [k|] eqn:Hk; [| discriminate].
  exists wav, ut, k. repeat split; auto. inversion Hs. reflexivity.
Qed.

Lemma result_fields_witness :
  exists r idx' tr fs',
    process_conversation demo_order "talk.mp3" (Some "meeting-1") None (6 # 10) (9 # 10)
      ["talk.mp3"] [] = (Returned (Some (r, idx', tr)), fs') /\
    r_conversation_id r = "meeting-1" /\
    r_s3_path r = utterance_path demo_order "meeting-1" 1.
Proof.
  destruct (process_conversation demo_order "talk.mp3" (Some "meeting-1") None (6 # 10) (9 # 10)
              ["talk.mp3"] []) as [o fs'] eqn:E.
  pose proof E as E0. vm_compute in E0. injection E0 as <- <-.
  do 4 eexists. split; [exact E|].
  destruct (result_fields demo_order "talk.mp3" (Some "meeting-1") None (6 # 10) (9 # 10)
              ["talk.mp3"] [] _ _ _ _ E) as (_ & Hc & _ & _ & wav & ut & k & Hcv & Ht & Hk & Hs).
  split; [apply Hc; [reflexivity | discriminate]|].
  rewrite Hs. cbn in Hcv. inversion Hcv; subst wav. cbn in Ht. inversion Ht; subst ut.
  vm_compute in Hk. inversion Hk. reflexivity.
Defined.

(** The returned utterance list of a completed run has one record per
    utterance that passed the filters, in the provider's order, whose id is
    the utterance's position in the provider's list and whose times, text
    and word data are copied from it; every record carries the database id
    returned by [add_conversation]. *)
Theorem returned_records_follow_provider (C : collab) (fp : string)
    (cid dn : option string) (mthr athr : Q) (fs : list string) (idx : index)
    (r : result) (idx' : index) (tr : list event) (fs' : list string) :
  process_conversation C fp cid dn mthr athr fs idx = (Returned (Some (r, idx', tr)), fs') ->
  exists wav full ut db,
    convert_to_wav C fp = Some wav /\ from_wav C wav = Some full /\
    transcribe C wav = Some ut /\
    add_conversation C
      [("conversation_id", PStr (conversation_id_or_new C cid));
       ("original_audio", PStr (basename C fp));
       ("duration_seconds", PFloat (inject_Z full / 1000));
       ("display_name", opt_str dn)] = Some db /\
    map passthrough (r_utterances r) =
      map (expected_view C db) (indexed_runs 0 (utterances_of ut)).
Proof.
  intros H.
  destruct (process_ok_full C fp cid dn mthr athr fs idx r idx' tr fs' H)
    as (wav & full & ut & db & st & Hc & Hf & Ht & Ha & Hl & Htr & Hid & H3 & _).
  exists wav, full, ut, db. repeat split; auto.
  destruct (loop_summary C _ db mthr athr _ 0 _ _ Hl) as [(ms & Hme & Hv) _].
  cbn in Hme. unfold identify_unknown_speakers_by_combining in Hid.
  replace (r_utterances r)
    with (snd (consolidate_groups C (conversation_id_or_new C cid) mthr athr
                 (fallback_tags (ls_meta st) []) (ls_index st) (ls_meta st)))
    by (rewrite Hid; reflexivity).
  rewrite consolidate_passthrough, Hme. exact Hv.
Qed.

Lemma returned_records_follow_provider_witness :
  exists r idx' tr fs',
    process_conversation demo_short "talk.mp3" None None (6 # 10) (9 # 10)
      ["talk.mp3"] [] = (Returned (Some (r, idx', tr)), fs') /\
    exists wav full ut db,
      convert_to_wav demo_short "talk.mp3" = Some wav /\ from_wav demo_short wav = Some full /\
      transcribe demo_short wav = Some ut /\
      add_conversation demo_short
        [("conversation_id", PStr (conversation_id_or_new demo_short None));
         ("original_audio", PStr (basename demo_short "talk.mp3"));
         ("duration_seconds", PFloat (inject_Z full / 1000));
         ("display_name", opt_str None)] = Some db /\
      map passthrough (r_utterances r) =
        map (expected_view demo_short db) (indexed_runs 0 (utterances_of ut)).
Proof.
  destruct (process_conversation demo_short "talk.mp3" None None (6 # 10) (9 # 10)
              ["talk.mp3"] []) as [o fs'] eqn:E.
  pose proof E as E0. vm_compute in E0. injection E0 as <- <-.
  do 4 eexists. split; [exact E|].
  exact (returned_records_follow_provider demo_short "talk.mp3" None None (6 # 10) (9 # 10)
           ["talk.mp3"] [] _ _ _ _ E).
Defined.

(** A completed run calls [test_voice_segment] exactly once for each
    utterance that passes the filters, in the provider's order, and for no
    other utterance. *)
Theorem one_query_per_processed_utterance (C : collab) (fp : string)
    (cid dn : option string) (mthr athr : Q) (fs : list string) (idx : index)
    (r : result) (idx' : index) (tr : list event) (fs' : list string) :
  process_conversation C fp cid dn mthr athr fs idx = (Returned (Some (r, idx', tr)), fs') ->
  exists wav ut,
    convert_to_wav C fp = Some wav /\ transcribe C wav = Some ut /\
    tests_of tr = map fst (indexed_runs 0 (utterances_of ut)).
Proof.
  intros H.
  destruct (process_ok_full C fp cid dn mthr athr fs idx r idx' tr fs' H)
    as (wav & full & ut & db & st & Hc & Hf & Ht & Ha & Hl & Htr & _).
  exists wav, ut. repeat split; auto.
  destruct (loop_summary C _ db mthr athr _ 0 _ _ Hl) as [_ [Hts _]].
  rewrite Htr, tests_of_app, Hts. cbn. rewrite app_nil_r. reflexivity.
Qed.

Definition demo_mixed :=
  demo_collab (Some (Some [utt 0 1000 "A" None; utt 1000 1500 "B" None;
                           mkUtt None (Some 1500%Z) (Some 4000%Z) (Some "A") (Some "x") None;
                           utt 4000 6000 "B" None]))
    (tv_unmatched (4 # 10)).

Lemma one_query_per_processed_utterance_witness :
  exists r idx' tr fs',
    process_conversation demo_mixed "talk.mp3" None None (6 # 10) (9 # 10)
      ["talk.mp3"] [] = (Returned (Some (r, idx', tr)), fs') /\
    tests_of tr = [0; 3].
Proof.
  destruct (process_conversation demo_mixed "talk.mp3" None None (6 # 10) (9 # 10)
              ["talk.mp3"] []) as [o fs'] eqn:E.
  pose proof E as E0. vm_compute in E0. injection E0 as <- <-.
  do 4 eexists. split; [exact E|].
  destruct (one_query_per_processed_utterance demo_mixed "talk.mp3" None None (6 # 10) (9 # 10)
              ["talk.mp3"] [] _ _ _ _ E) as (wav & ut & Hc & Ht & Hts).
  rewrite Hts. cbn in Hc. inversion Hc; subst wav. cbn in Ht. inversion Ht; subst ut.
  vm_compute. reflexivity.
Defined.

(** When matching returns a non-empty speaker name, the stored record
    carries that name, the confidence and the embedding id returned by
    [test_voice_segment]. *)
Theorem matched_record_uses_match (C : collab) cid db mthr athr i u st st'
    w s e name conf eid emb :
  step C cid db mthr athr i u st = Some st' ->
  u_words u = Some w -> u_start u = Some s -> u_end u = Some e ->
  (700 <= e - s)%Z ->
  test_voice_segment C (ls_index st) (s, e) cid i mthr =
    Some (Some name, conf, eid, emb) ->
  name <> "" ->
  exists rec,
    ls_meta st' = (ls_meta st ++ [rec])%list /\
    lookup "speaker" rec = Some (PStr name) /\
    lookup "confidence" rec = Some (PFloat conf) /\
    lookup "embedding_id" rec = Some (opt_str eid).
Proof.
  intros H Hw Hs He Hge Ht Hne.
  destruct (step_run C cid db mthr athr i u st st' w s e (Some name) conf eid emb
              H Hw Hs He Hge Ht) as (name' & c & text & Hr & Htx & Htr & Hm).
  unfold resolve_speaker, truthy_str in Hr. apply String.eqb_neq in Hne.
  rewrite Hne in Hr. cbn in Hr. inversion Hr; subst name' c.
  eexists. split; [exact Hm|]. repeat split.
Qed.

Lemma matched_record_uses_match_witness :
  exists st',
    step (demo_collab None (tv_alice (7 # 10))) "c" "db" (6 # 10) (9 # 10) 0
      (utt 0 1000 "A" (Some (1 # 2))) (mkL [] [] [] None) = Some st' /\
    exists rec,
      ls_meta st' = ([] ++ [rec])%list /\
      lookup "speaker" rec = Some (PStr "Alice") /\
      lookup "confidence" rec = Some (PFloat (7 # 10)) /\
      lookup "embedding_id" rec = Some (opt_str (Some "emb_0")).
Proof.
  destruct (step (demo_collab None (tv_alice (7 # 10))) "c" "db" (6 # 10) (9 # 10) 0
              (utt 0 1000 "A" (Some (1 # 2))) (mkL [] [] [] None)) as [st'|] eqn:E;
    [| vm_compute in E; discriminate].
  exists st'. split; [reflexivity|].
  exact (matched_record_uses_match (demo_collab None (tv_alice (7 # 10))) "c" "db"
           (6 # 10) (9 # 10) 0 (utt 0 1000 "A" (Some (1 # 2))) (mkL [] [] [] None) st'
           ["hi"] 0%Z 1000%Z "Alice" (7 # 10) (Some "emb_0") (Some [1 # 1])
           E eq_refl eq_refl eq_refl ltac:(lia) eq_refl ltac:(discriminate)).
Defined.

(** ** Clip paths *)

(** Reads back a string of decimal digits (leading zeros allowed). *)
Fixpoint parse_dec_acc (s : string) (v : nat) : nat :=
  match s with
  | EmptyString => v
  | String c s' => parse_dec_acc s' (v * 10 + (nat_of_ascii c - 48))
  end.

Lemma parse_digit (d : nat) (acc : string) (v : nat) :
  d < 10 ->
  parse_dec_acc (String (ascii_of_nat (48 + d)) acc) v = parse_dec_acc acc (v * 10 + d).
Proof.
  intros Hd. cbn [parse_dec_acc]. rewrite nat_ascii_embedding by lia.
  f_equal. lia.
Qed.

Lemma parse_dec_aux (fuel n : nat) (acc : string) :
  n < fuel -> parse_dec_acc (dec_aux fuel n acc) 0 = parse_dec_acc acc n.
Proof.
  revert n acc. induction fuel as [|f IH]; intros n acc Hn; [lia|].
  cbn [dec_aux]. pose proof (Nat.mod_upper_bound n 10 ltac:(lia)) as Hm.
  destruct (Nat.ltb n 10) eqn:E.
  - apply Nat.ltb_lt in E. rewrite parse_digit by exact Hm.
    rewrite Nat.mod_small by exact E. reflexivity.
  - apply Nat.ltb_ge in E. rewrite IH.
    + rewrite parse_digit by exact Hm. f_equal.
      pose proof (Nat.div_mod_eq n 10). lia.
    + assert (n / 10 < n) by (apply Nat.div_lt; lia). lia.
Qed.

(** [f"{i:03d}"] reads back to [i]. *)
Lemma parse_fmt03 (n : nat) : parse_dec_acc (fmt03 n) 0 = n.
Proof.
  assert (Hd : parse_dec_acc (dec n) 0 = n)
    by (unfold dec; rewrite parse_dec_aux by lia; reflexivity).
  unfold fmt03. destruct (String.length (dec n)) as [|[|[|k]]]; auto.
Qed.

Lemma append_cancel_l (p a b : string) : p ++ a = p ++ b -> a = b.
Proof.
  induction p as [|c p IH]; cbn; [auto|]. intros H; inversion H; auto.
Qed.

Lemma append_length (a b : string) :
  String.length (a ++ b) = String.length a + String.length b.
Proof. induction a as [|c a IH]; cbn; [reflexivity | rewrite IH; reflexivity]. Qed.

Lemma append_cancel_r (a b c : string) : a ++ c = b ++ c -> a = b.
Proof.
  revert b. induction a as [|x a IH]; intros b H; destruct b as [|y b].
  - reflexivity.
  - exfalso. apply (f_equal String.length) in H.
    rewrite !append_length in H. cbn in H. lia.
  - exfalso. apply (f_equal String.length) in H.
    rewrite !append_length in H. cbn in H. lia.
  - cbn in H. inversion H. f_equal. apply IH. assumption.
Qed.

(** Two utterances of one conversation never share a clip path:
    [utterance_{i:03d}.wav] determines [i]. *)
Theorem utterance_path_injective (C : collab) (conversation_id : string) (i j : nat) :
  utterance_path C conversation_id i = utterance_path C conversation_id j -> i = j.
Proof.
  unfold utterance_path. intros H.
  repeat (apply append_cancel_l in H).
  apply append_cancel_r in H.
  rewrite <- (parse_fmt03 i), <- (parse_fmt03 j), H. reflexivity.
Qed.

Lemma utterance_path_injective_witness :
  utterance_path demo_short "c" 7 = utterance_path demo_short "c" 7 /\ 7 = 7.
Proof.
  split; [reflexivity|].
  exact (utterance_path_injective demo_short "c" 7 7 eq_refl).
Defined.

Example utterance_path_demo :
  utterance_path demo_short "convo_1" 7 = "conversations/convo_1/utterances/utterance_007.wav".
Proof. reflexivity. Qed.

Lemma temp_removed_on_return_witness :
  process_conversation demo_malformed "talk.mp3" None None (6 # 10) (9 # 10)
    ["talk.mp3"] [] = (Returned None, ["talk.mp3"]) /\
  file_exists "talk.wav" ["talk.mp3"] = false /\
  (file_exists "talk.mp3" ["talk.mp3"] = true -> file_exists "talk.mp3" ["talk.mp3"] = true).
Proof.
  assert (E : process_conversation demo_malformed "talk.mp3" None None (6 # 10) (9 # 10)
                ["talk.mp3"] [] = (Returned None, ["talk.mp3"])) by (vm_compute; reflexivity).
  split; [exact E|].
  exact (temp_removed_on_return demo_malformed "talk.mp3" None None (6 # 10) (9 # 10)
           ["talk.mp3"] [] None ["talk.mp3"] "talk.wav" E eq_refl ltac:(discriminate)).
Defined.
